(** * Side-loaded verification keys in recursive ZkPrograms

    A shallow embedding of the two example programs of the repository:

    - the [add]/[multiply] pair, where the [add] circuit consumes a
      [DynamicMultiplyProof] and pins the verification key it is checked
      against to one hard-coded hash;
    - [mainProgram] of [dynamic-keys-merkletree.ts], which keeps the hashes of
      the verification keys it accepts in a Merkle tree whose root travels in
      the public state.  The two side-loaded programs of that file and the
      script that registers their keys and validates their proofs are
      embedded as well.

    A circuit method is a function into an error monad: every [assertEquals]
    and every proof verification of the method body is a check at the place
    where the source has it, and the first check that does not hold aborts the
    method.  The proof system (o1js / Pickles) is not part of the repository;
    it enters through the [Backend] interface below. *)

From Stdlib Require Import ZArith Lia List String Bool.
From stdpp Require Import base decidable option list numbers gmap strings proof_irrel.

Local Open Scope Z_scope.

(* ================================================================== *)
(** ** Field elements *)
(* ================================================================== *)

(** The order of the native field of the proof system ([Field.ORDER] in
    o1js, the base field of the Pallas curve). *)
Definition ORDER : Z :=
  28948022309329048855892746252171976963363056481941560715954676764349967630337.

(** A [Field] of o1js is a bigint kept in the range [0, ORDER); two fields
    are equal when their bigints are. *)
Record Field : Type := mkField {
  toBigInt : Z;
  Field_inRange : Is_true ((0 <=? toBigInt) && (toBigInt <? ORDER))
}.

Lemma mod_ORDER_inRange (z : Z) :
  Is_true ((0 <=? z mod ORDER) && (z mod ORDER <? ORDER)).
Proof.
  assert (0 <= z mod ORDER < ORDER) as [H0 H1]
    by (apply Z.mod_pos_bound; reflexivity).
  apply Is_true_true, andb_true_iff; split; [apply Z.leb_le | apply Z.ltb_lt]; lia.
Qed.

(** [Field(z)]: the constructor reduces its argument into the field. *)
Definition Field_of (z : Z) : Field := mkField (z mod ORDER) (mod_ORDER_inRange z).

Definition Field_add (x y : Field) : Field := Field_of (toBigInt x + toBigInt y).
Definition Field_mul (x y : Field) : Field := Field_of (toBigInt x * toBigInt y).
Definition Field_equals (x y : Field) : bool := toBigInt x =? toBigInt y.

(* ================================================================== *)
(** ** Failing circuits *)
(* ================================================================== *)

(** Why a method stopped.  The source throws plain [Error]s; the constructors
    name the assertion that threw, after the taxonomy of the design:
    - [UntrustedKey]: the verification key is not the trusted one
      ([vkHash.assertEquals(trustedMulVkHash)], and the inclusion check
      'Tree witness with provided vk not correct');
    - [ProofInvalid]: a side-loaded proof that had to verify did not;
    - [SlotOccupied]: 'Provided merklewitness not correct or leaf not empty';
    - [ContinuityBroken]: the previous proof's output is not the public input;
    - [ConstraintViolation]: any other assertion of a method body. *)
Inductive Error : Type :=
  | UntrustedKey
  | ProofInvalid
  | SlotOccupied
  | ContinuityBroken
  | ConstraintViolation.

Inductive Result (A : Type) : Type :=
  | Ok (a : A)
  | Err (e : Error).
Arguments Ok {A} a.
Arguments Err {A} e.

#[global] Instance Result_ret : MRet Result := @Ok.
#[global] Instance Result_bind : MBind Result := fun A B f r =>
  match r with
  | Ok a => f a
  | Err e => Err e
  end.

Definition succeeds {A} (r : Result A) : Prop := exists a, r = Ok a.

(** [x.assertEquals(y)], failing with [e]. *)
Definition assertEquals (x y : Field) (e : Error) : Result unit :=
  if Field_equals x y then Ok tt else Err e.

(** [x.assertLessThanOrEqual(y)], failing with [e]: the bigints of the two
    fields are compared. *)
Definition assertLessThanOrEqual (x y : Field) (e : Error) : Result unit :=
  if toBigInt x <=? toBigInt y then Ok tt else Err e.

(* ================================================================== *)
(** ** The proof system, as the programs see it *)
(* ================================================================== *)

(** [VerificationKey] of o1js: the serialised key and its hash. *)
Record VerificationKey : Type := {
  data : string;
  hash : Field
}.

(** What the programs use of o1js, the black boxes of the design: hashing,
    compiling, proving and verifying.  Nothing is assumed of these operations;
    in particular a [Backend] need not be sound or complete, and its hash may
    collide. *)
Class Backend : Type := {
  (** the opaque proof object produced by the prover *)
  Pickles_proof : Type;
  (** [Poseidon.hash] *)
  Poseidon_hash : list Field -> Field;
  (** [VerificationKey.toFields] *)
  VerificationKey_toFields : VerificationKey -> list Field;
  (** [program.compile()], by the program's name *)
  Pickles_compile : string -> VerificationKey;
  (** the proof object for a statement of a program *)
  Pickles_prove : forall {I O : Type}, string -> I -> O -> Pickles_proof;
  (** the proof object of a dummy proof *)
  Pickles_dummy : nat -> Pickles_proof;
  (** does the proof object prove the statement (public input, public output)
      under the key? *)
  Pickles_verify : forall {I O : Type}, I -> O -> Pickles_proof -> VerificationKey -> bool
}.

Section Programs.

Context `{B : Backend}.

Record Proof (I O : Type) : Type := {
  publicInput : I;
  publicOutput : O;
  maxProofsVerified : nat;
  proof : Pickles_proof
}.
Arguments publicInput {I O} _.
Arguments publicOutput {I O} _.
Arguments maxProofsVerified {I O} _.
Arguments proof {I O} _.

(** Modelled from the spec: a [DynamicProof] has the fields of a [Proof]; its
    verification key is an argument of the verification. *)
Definition DynamicProof (I O : Type) : Type := Proof I O.

(** Modelled from the spec: [DynamicProof.fromProof] wraps a proof and keeps
    its public input, public output and proof object. *)
Definition fromProof {I O} (p : Proof I O) : DynamicProof I O :=
  {| publicInput := publicInput p;
     publicOutput := publicOutput p;
     maxProofsVerified := maxProofsVerified p;
     proof := proof p |}.

(** Modelled from the spec:
    [DynamicProof.dummy(publicInput, publicOutput, maxProofsVerified)], a proof
    with the given statement that no prover produced. *)
Definition dummy {I O} (i : I) (o : O) (n : nat) : DynamicProof I O :=
  {| publicInput := i;
     publicOutput := o;
     maxProofsVerified := n;
     proof := Pickles_dummy n |}.

(** Modelled from the spec: [verify(proof, vk)], the backend's verification of
    the proof object against the proof's statement; never throws. *)
Definition verify {I O} (p : Proof I O) (vk : VerificationKey) : bool :=
  Pickles_verify (publicInput p) (publicOutput p) (proof p) vk.

(** Modelled from the spec: [proof.verifyIf(vk, condition)], the conditional
    verification with [skip = not condition]: the proof has to verify against
    [vk] when [condition] holds, failure being fatal, and is not looked at
    otherwise. *)
Definition verifyIf {I O} (p : DynamicProof I O) (vk : VerificationKey)
    (condition : bool) : Result unit :=
  if condition then
    if verify p vk then Ok tt else Err ProofInvalid
  else Ok tt.

(** Modelled from the spec: [proof.verify(vk)], the verification without
    a skip. *)
Definition verify_ {I O} (p : DynamicProof I O) (vk : VerificationKey) : Result unit :=
  verifyIf p vk true.

(** Modelled from the spec: calling a method of a compiled program
    ([prove]).  The method body runs, and when no assertion fails the result
    is a proof of its public output. *)
Definition prove {I O} (name : string) (n : nat) (i : I) (body : Result O)
    : Result (Proof I O) :=
  o ← body;
  Ok {| publicInput := i;
        publicOutput := o;
        maxProofsVerified := n;
        proof := Pickles_prove name i o |}.

(* ================================================================== *)
(** ** [add] and [multiply]: one trusted key *)
(* ================================================================== *)

(** [class DynamicMultiplyProof extends DynamicProof<Undefined, Field>] *)
Definition DynamicMultiplyProof : Type := DynamicProof unit Field.

(** calculated from a previous run *)
Definition trustedMulVkHash : Field :=
  Field_of 8142940553167082449842668986851829272657527115204486450531957647731361130797.

Definition performAddition (field : Field) (proof : DynamicMultiplyProof)
    (vk : VerificationKey) : Result Field :=
  let vkFields := VerificationKey_toFields vk in
  let vkHash := Poseidon_hash vkFields in
  assertEquals vkHash trustedMulVkHash UntrustedKey;;
  let multiplyResult := publicOutput proof in
  (* Skip verification in case the input is 0 as that is our base-case *)
  verifyIf proof vk (negb (Field_equals multiplyResult (Field_of 0)));;
  let additionResult := Field_add multiplyResult field in
  Ok additionResult.

Definition performMultiplication (field1 field2 : Field) : Result Field :=
  let multiplicationResult := Field_mul field1 field2 in
  Ok multiplicationResult.

(** The two programs, as the driver calls them. *)
Definition add_performAddition (field : Field) (proof : DynamicMultiplyProof)
    (vk : VerificationKey) : Result (Proof unit Field) :=
  prove "add" 1%nat tt (performAddition field proof vk).

Definition multiply_performMultiplication (field1 field2 : Field)
    : Result (Proof unit Field) :=
  prove "multiply" 0%nat tt (performMultiplication field1 field2).

(** The run of the driver script: the base case, the multiplication and the
    recursive addition; the three public outputs.  (The script also prints the
    outcome of [verify] on each proof, which does not enter the run.) *)
Definition driver : Result (Field * Field * Field) :=
  let mulVk := Pickles_compile "multiply" in
  let dummyProof : DynamicMultiplyProof := dummy tt (Field_of 0) 0%nat in
  baseCase ← add_performAddition (Field_of 5) dummyProof mulVk;
  multiply1 ← multiply_performMultiplication (Field_of 3) (Field_of 3);
  add2 ← add_performAddition (Field_of 4) (fromProof multiply1) mulVk;
  Ok (publicOutput baseCase, publicOutput multiply1, publicOutput add2).

(* ================================================================== *)
(** ** The Merkle tree of verification keys *)
(* ================================================================== *)

(** Modelled from the spec: one step of an authentication path, a direction
    bit and a sibling hash (what [tree.getWitness] returns a list of). *)
Record WitnessNode : Type := {
  isLeft : bool;
  sibling : Field
}.

(** Modelled from the spec: [MerkleWitness] is a class of o1js and not part
    of the repository.  A witness is an authentication path, one sibling
    hash and one direction bit per level, from the leaf upwards.  (The class
    fixes the length of the path; the methods below do not depend on it.) *)
Definition MerkleTreeWitness : Type := list WitnessNode.

(** Modelled from the spec: [calculateRoot(leafValue)] recomputes what the
    root would be if the leaf of the path held [leafValue]: at every level
    the running hash is paired with the sibling, on the side the direction
    bit gives, and hashed. *)
Definition calculateRoot (witness : MerkleTreeWitness) (leaf : Field) : Field :=
  fold_left
    (fun hash node =>
       let (left, right) :=
         if isLeft node then (hash, sibling node) else (sibling node, hash) in
       Poseidon_hash [left; right])
    witness leaf.

(** Modelled from the spec: the reserved leaf value of an unoccupied slot,
    field zero. *)
Definition EMPTY : Field := Field_of 0.

(** Modelled from the spec: [MerkleTree] is a class of o1js and not part of
    the repository.  A tree of fixed depth [D] has [2^D] leaves, kept
    sparsely by index with default [EMPTY]. *)
Record MerkleTree : Type := {
  depth : nat;
  leaves : gmap N Field
}.

(** Modelled from the spec: [new MerkleTree(D)], all slots unoccupied. *)
Definition MerkleTree_new (D : nat) : MerkleTree :=
  {| depth := D; leaves := ∅ |}.

(** Modelled from the spec: the number of leaves. *)
Definition leafCount (T : MerkleTree) : N := (2 ^ N.of_nat (depth T))%N.

(** Modelled from the spec: the leaf of a slot, [EMPTY] when never written. *)
Definition getLeaf (T : MerkleTree) (index : N) : Field :=
  default EMPTY (leaves T !! index).

(** Modelled from the spec: the node [index] of [level], computed bottom-up
    with the hash over the pair of its children; level 0 are the leaves. *)
Fixpoint getNode (T : MerkleTree) (level : nat) (index : N) : Field :=
  match level with
  | O => getLeaf T index
  | S l => Poseidon_hash [getNode T l (2 * index)%N; getNode T l (2 * index + 1)%N]
  end.

(** Modelled from the spec: [tree.getRoot()]. *)
Definition getRoot (T : MerkleTree) : Field := getNode T (depth T) 0%N.

(** Modelled from the spec: [tree.setLeaf(index, leaf)]; the script's tree is
    updated in place, here the updated tree is returned. *)
Definition setLeaf (T : MerkleTree) (index : N) (leaf : Field) : MerkleTree :=
  {| depth := depth T; leaves := <[index := leaf]> (leaves T) |}.

(** Modelled from the spec: the path from the node [index] of [level], [n]
    levels upwards; a node is the left child when its index is even, and its
    sibling is the node next to it under the same parent. *)
Fixpoint getWitness_from (T : MerkleTree) (level n : nat) (index : N)
    : MerkleTreeWitness :=
  match n with
  | O => []
  | S n' =>
      let isLeft := N.even index in
      let sibling := getNode T level (if isLeft then index + 1 else index - 1)%N in
      {| isLeft := isLeft; sibling := sibling |}
        :: getWitness_from T (S level) n' (index / 2)%N
  end.

(** Modelled from the spec: the authentication path of the leaf [index]. *)
Definition getWitness (T : MerkleTree) (index : N) : MerkleTreeWitness :=
  getWitness_from T 0 (depth T) index.

(* ================================================================== *)
(** ** [mainProgram]: the keys of a Merkle tree *)
(* ================================================================== *)

(** [class SideloadedProgramProof extends DynamicProof<Field, Field>] *)
Definition SideloadedProgramProof : Type := DynamicProof Field Field.

Record MainProgramState : Type := {
  treeRoot : Field;
  state : Field
}.

Definition addSideloadedProgram (publicInput : MainProgramState)
    (vk : VerificationKey) (merkleWitness : MerkleTreeWitness)
    : Result MainProgramState :=
  (* In practice, this method would be guarded via some access control mechanism *)
  let currentRoot := calculateRoot merkleWitness (Field_of 0) in
  assertEquals (treeRoot publicInput) currentRoot SlotOccupied;;
  let newRoot := calculateRoot merkleWitness (hash vk) in
  Ok {| state := state publicInput; treeRoot := newRoot |}.

Definition validateUsingTree (publicInput : MainProgramState)
    (previous : Proof MainProgramState MainProgramState)
    (vk : VerificationKey) (merkleWitness : MerkleTreeWitness)
    (proof : SideloadedProgramProof) : Result MainProgramState :=
  (* Verify previous program state *)
  assertEquals (state (publicOutput previous)) (state publicInput) ContinuityBroken;;
  assertEquals (treeRoot (publicOutput previous)) (treeRoot publicInput) ContinuityBroken;;
  (* Verify inclusion of vk inside the tree *)
  let computedRoot := calculateRoot merkleWitness (hash vk) in
  assertEquals (treeRoot publicInput) computedRoot UntrustedKey;;
  verify_ proof vk;;
  (* Compute new state *)
  let '{| publicInput := proof_publicInput |} := proof in
  assertEquals proof_publicInput (state publicInput) ConstraintViolation;;
  let newState := publicOutput proof in
  Ok {| treeRoot := treeRoot publicInput; state := newState |}.

(* ================================================================== *)
(** ** The side-loaded programs and the script of [mainProgram] *)
(* ================================================================== *)

(** [sideloadedProgram] ('childProgram'), method [compute] *)
Definition compute (publicInput privateInput : Field) : Result Field :=
  Ok (Field_add publicInput privateInput).

(** [sideloadedProgram], method [assertAndAdd] *)
Definition assertAndAdd (publicInput privateInput : Field) : Result Field :=
  (* this uses assert to test range check gates and their feature flags *)
  assertLessThanOrEqual publicInput privateInput ConstraintViolation;;
  Ok (Field_add publicInput privateInput).

(** [sideloadedProgram2] ('childProgram2'), method [compute] *)
Definition compute2 (publicInput privateInput : Field) : Result Field :=
  Ok (Field_mul publicInput privateInput).

(** [sideloadedProgram2], method [assertAndMul] *)
Definition assertAndMul (publicInput privateInput : Field) : Result Field :=
  (* this uses assert to test range check gates and their feature flags *)
  assertLessThanOrEqual publicInput privateInput ConstraintViolation;;
  Ok (Field_mul publicInput privateInput).

(** The programs, as the script calls them. *)
Definition sideloadedProgram_compute (publicInput privateInput : Field)
    : Result (Proof Field Field) :=
  prove "childProgram" 0%nat publicInput (compute publicInput privateInput).


Definition sideloadedProgram2_compute (publicInput privateInput : Field)
    : Result (Proof Field Field) :=
  prove "childProgram2" 0%nat publicInput (compute2 publicInput privateInput).






End Programs.

Arguments publicInput {B I O} _.
Arguments publicOutput {B I O} _.
Arguments maxProofsVerified {B I O} _.
Arguments proof {B I O} _.

(* ================================================================== *)
(** ** The hash inputs of a path *)
(* ================================================================== *)

Section Collisions.

Context `{B : Backend}.

(** The lists that [calculateRoot witness leaf] hashes, from the leaf upwards. *)
Fixpoint hashedAlong (witness : MerkleTreeWitness) (leaf : Field) : list (list Field) :=
  match witness with
  | [] => []
  | node :: rest =>
      let input :=
        if isLeft node then [leaf; sibling node] else [sibling node; leaf] in
      input :: hashedAlong rest (Poseidon_hash input)
  end.

(** [Poseidon_hash] has no collision among [inputs]. *)
Definition collisionFree (inputs : list (list Field)) : Prop :=
  forall x y, In x inputs -> In y inputs -> Poseidon_hash x = Poseidon_hash y -> x = y.

End Collisions.

(* ================================================================== *)
(** ** A small backend to run the programs on *)
(* ================================================================== *)

Module Toy.

(** A stand-in for the proof system: a key is the length of the program's
    name, a proof object names the program that produced it, and the proof
    object of a dummy proof names none. *)
Definition compile (name : string) : VerificationKey :=
  {| data := name; hash := Field_of (Z.of_nat (String.length name)) |}.

Definition toFields (vk : VerificationKey) : list Field := [hash vk].

Definition poly (xs : list Field) : Z :=
  fold_right (fun x acc => toBigInt x + 3 * acc) 0 xs.

(** Chosen so that the key of ["multiply"] hashes to the trusted constant. *)
Definition hashFields (xs : list Field) : Field :=
  Field_of (poly xs +
    8142940553167082449842668986851829272657527115204486450531957647731361130789).

#[local] Instance backend : Backend := {|
  Pickles_proof := Z;
  Poseidon_hash := hashFields;
  VerificationKey_toFields := toFields;
  Pickles_compile := compile;
  Pickles_prove := fun _ _ name _ _ => Z.of_nat (String.length name);
  Pickles_dummy := fun _ => (-1);
  Pickles_verify := fun _ _ _ _ pi vk => pi =? toBigInt (hash vk)
|}.

Definition mulVk : VerificationKey := compile "multiply".
Definition otherVk : VerificationKey := compile "add".

Definition dummyProof : DynamicMultiplyProof := dummy tt (Field_of 0) 0%nat.

(** A registry of depth 2 with [mulVk] at slot 1. *)
Definition emptyTree : MerkleTree := MerkleTree_new 2.
Definition tree1 : MerkleTree := setLeaf emptyTree 1%N (hash mulVk).

(** A child proof with public input 0 and public output 10. *)
Definition childProof : SideloadedProgramProof :=
  {| publicInput := Field_of 0; publicOutput := Field_of 10;
     maxProofsVerified := 0%nat; proof := 8 |}.

Definition state1 : MainProgramState :=
  {| treeRoot := getRoot tree1; state := Field_of 0 |}.

Definition previous1 : Proof MainProgramState MainProgramState :=
  {| publicInput := {| treeRoot := getRoot emptyTree; state := Field_of 0 |};
     publicOutput := state1; maxProofsVerified := 0%nat; proof := 11 |}.

(** A predecessor whose output has another value than [state1]. *)
Definition previousOff : Proof MainProgramState MainProgramState :=
  {| publicInput := state1;
     publicOutput := {| treeRoot := getRoot tree1; state := Field_of 1 |};
     maxProofsVerified := 0%nat; proof := 11 |}.

(** A second key, at slot 2 of the registry. *)
Definition tree2 : MerkleTree := setLeaf tree1 2%N (hash otherVk).

Definition state2 : MainProgramState :=
  {| treeRoot := getRoot tree2; state := Field_of 0 |}.

(** A predecessor that no prover produced, claiming [state2]. *)
Definition forged2 : Proof MainProgramState MainProgramState :=
  dummy state1 state2 2%nat.


(** A key with hash 0. *)
Definition zeroVk : VerificationKey := compile "".

(** The key of the first side-loaded program, and a state whose root the
    path of slot 1 computes from its hash. *)
Definition childVk : VerificationKey := compile "childProgram".

Definition stateC : MainProgramState :=
  {| treeRoot := calculateRoot (getWitness emptyTree 1%N) (hash childVk);
     state := Field_of 0 |}.

Definition previousC : Proof MainProgramState MainProgramState :=
  dummy stateC stateC 2%nat.

Definition computed : Proof Field Field :=
  {| publicInput := Field_of 0;
     publicOutput := Field_add (Field_of 0) (Field_of 10);
     maxProofsVerified := 0%nat;
     proof := 12 |}.

End Toy.

(* ================================================================== *)
(** * Theory *)
(* ================================================================== *)

(** ** Field elements *)

Lemma Field_eq (x y : Field) : toBigInt x = toBigInt y -> x = y.
Proof.
  destruct x as [a Ha], y as [b Hb]; simpl; intros ->.
  f_equal; apply proof_irrel.
Qed.

Lemma Field_range (x : Field) : 0 <= toBigInt x < ORDER.
Proof.
  destruct x as [a Ha]; simpl.
  apply Is_true_true, andb_true_iff in Ha as [H0 H1].
  apply Z.leb_le in H0; apply Z.ltb_lt in H1; lia.
Qed.

Lemma Field_equals_true (x y : Field) : Field_equals x y = true <-> x = y.
Proof.
  unfold Field_equals; rewrite Z.eqb_eq; split; [apply Field_eq | congruence].
Qed.

Lemma Field_equals_false (x y : Field) : Field_equals x y = false <-> x <> y.
Proof.
  rewrite <- Field_equals_true; destruct (Field_equals x y); split; congruence.
Qed.

Lemma Field_equals_refl (x : Field) : Field_equals x x = true.
Proof. apply Field_equals_true; reflexivity. Qed.

#[global] Instance Field_eq_dec : EqDecision Field.
Proof.
  intros x y; destruct (Field_equals x y) eqn:E.
  - left; apply Field_equals_true, E.
  - right; apply Field_equals_false, E.
Defined.

Lemma toBigInt_Field_of (z : Z) : 0 <= z < ORDER -> toBigInt (Field_of z) = z.
Proof. intros H; simpl; apply Z.mod_small, H. Qed.

Lemma Field_add_0_l (x : Field) : Field_add (Field_of 0) x = x.
Proof.
  apply Field_eq; unfold Field_add; simpl toBigInt at 1.
  rewrite (Z.mod_small 0) by (split; [lia | reflexivity]).
  apply Z.mod_small, Field_range.
Qed.

Lemma Field_of_5 : Field_add (Field_of 0) (Field_of 5) = Field_of 5.
Proof. apply Field_add_0_l. Qed.

Lemma Field_of_9 : Field_mul (Field_of 3) (Field_of 3) = Field_of 9.
Proof. apply Field_eq; reflexivity. Qed.

Lemma Field_of_13 : Field_add (Field_of 9) (Field_of 4) = Field_of 13.
Proof. apply Field_eq; reflexivity. Qed.

Lemma Field_of_9_nonzero : Field_equals (Field_of 9) (Field_of 0) = false.
Proof. reflexivity. Qed.

(** ** The error monad *)

Lemma assertEquals_Ok (x y : Field) (e : Error) :
  assertEquals x y e = Ok tt <-> x = y.
Proof.
  unfold assertEquals; destruct (Field_equals x y) eqn:E.
  - apply Field_equals_true in E; tauto.
  - apply Field_equals_false in E; split; [discriminate | tauto].
Qed.

Lemma assertEquals_Err (x y : Field) (e : Error) :
  x <> y -> assertEquals x y e = Err e.
Proof.
  intros H; apply Field_equals_false in H; unfold assertEquals; rewrite H; reflexivity.
Qed.

Lemma assertEquals_refl (x : Field) (e : Error) : assertEquals x x e = Ok tt.
Proof. apply assertEquals_Ok; reflexivity. Qed.

Lemma bind_Ok {A C} (a : A) (k : A -> Result C) : (Ok a ≫= k) = k a.
Proof. reflexivity. Qed.

Lemma bind_Err {A C} (e : Error) (k : A -> Result C) : (Err e ≫= k) = Err e.
Proof. reflexivity. Qed.

Lemma succeeds_Ok {A} (a : A) : succeeds (Ok a).
Proof. exists a; reflexivity. Qed.

Lemma succeeds_Err {A} (e : Error) : ~ succeeds (@Err A e).
Proof. intros [a H]; discriminate. Qed.

Create HintDb circuit.
#[local] Hint Resolve succeeds_Ok succeeds_Err assertEquals_refl : circuit.

Lemma assertEquals_cases (x y : Field) (e : Error) :
  (x = y /\ assertEquals x y e = Ok tt) \/ (x <> y /\ assertEquals x y e = Err e).
Proof.
  destruct (decide (x = y)) as [Heq | Hne].
  - left; split; [exact Heq | apply assertEquals_Ok, Heq].
  - right; split; [exact Hne | apply assertEquals_Err, Hne].
Qed.

(** A method is taken apart check by check: its next [assertEquals] either
    holds, and the method goes on, or stops it. *)
Ltac next_assert :=
  let E := fresh "E" in
  lazymatch goal with
  | |- context [assertEquals ?x ?y ?e ≫= ?k] =>
      destruct (assertEquals_cases x y e) as [[E ->] | [E ->]];
      rewrite ?bind_Ok, ?bind_Err
  end.

(* ================================================================== *)
(** ** [performAddition] *)
(* ================================================================== *)

Section Add.

Context `{B : Backend}.

Implicit Types (field : Field) (proof : DynamicMultiplyProof) (vk : VerificationKey).

(** The hash the method compares with the trusted one. *)
#[local] Abbreviation vkHash vk := (Poseidon_hash (VerificationKey_toFields vk)).

Lemma verifyIf_false {I O} (p : DynamicProof I O) vk : verifyIf p vk false = Ok tt.
Proof. reflexivity. Qed.

Lemma verifyIf_true {I O} (p : DynamicProof I O) vk :
  verify p vk = true -> verifyIf p vk true = Ok tt.
Proof. intros H; unfold verifyIf; rewrite H; reflexivity. Qed.

Lemma verifyIf_not_key {I O} (p : DynamicProof I O) vk c :
  verifyIf p vk c <> Err UntrustedKey.
Proof. unfold verifyIf; destruct c, (verify p vk); discriminate. Qed.

Lemma performAddition_trusted field proof vk :
  vkHash vk = trustedMulVkHash ->
  performAddition field proof vk =
    (verifyIf proof vk (negb (Field_equals (publicOutput proof) (Field_of 0)));;
     Ok (Field_add (publicOutput proof) field)).
Proof.
  intros H; unfold performAddition; rewrite H, assertEquals_refl; reflexivity.
Qed.

Lemma performAddition_untrusted field proof vk :
  vkHash vk <> trustedMulVkHash ->
  performAddition field proof vk = Err UntrustedKey.
Proof.
  intros H; unfold performAddition.
  rewrite (assertEquals_Err _ _ UntrustedKey H); reflexivity.
Qed.

Lemma performAddition_Ok field proof vk out :
  performAddition field proof vk = Ok out ->
  out = Field_add (publicOutput proof) field.
Proof.
  unfold performAddition; next_assert; [| discriminate].
  destruct (verifyIf _ _ _) as [[]|e]; rewrite ?bind_Ok, ?bind_Err; congruence.
Qed.

(** C1: the key check of [performAddition] passes exactly when the Poseidon
    hash of the fields of the supplied key is [trustedMulVkHash]; with any
    other key the method fails on that check. *)
Theorem performAddition_key_check field proof vk :
  (performAddition field proof vk <> Err UntrustedKey
     <-> vkHash vk = trustedMulVkHash) /\
  (performAddition field proof vk = Err UntrustedKey
     <-> vkHash vk <> trustedMulVkHash).
Proof.
  destruct (decide (vkHash vk = trustedMulVkHash)) as [Heq | Hne].
  - assert (performAddition field proof vk <> Err UntrustedKey) as Hpass.
    { rewrite (performAddition_trusted _ _ _ Heq).
      pose proof (verifyIf_not_key proof vk
        (negb (Field_equals (publicOutput proof) (Field_of 0)))) as Hv.
      destruct (verifyIf _ _ _) as [[]|e]; rewrite ?bind_Ok, ?bind_Err;
        congruence. }
    split; split; intros; try assumption; contradiction.
  - pose proof (performAddition_untrusted field proof vk Hne) as Hfail.
    split; split; intros; try assumption; contradiction.
Qed.

(** C7: when the public output of the wrapped proof is 0 the verification is
    switched off: the proof is not looked at, [performAddition] cannot fail
    with [ProofInvalid], and what it returns depends on the key check alone,
    whether or not the proof verifies. *)
Theorem performAddition_skip field proof vk :
  publicOutput proof = Field_of 0 ->
  verifyIf proof vk (negb (Field_equals (publicOutput proof) (Field_of 0))) = Ok tt /\
  performAddition field proof vk <> Err ProofInvalid /\
  performAddition field proof vk =
    (assertEquals (vkHash vk) trustedMulVkHash UntrustedKey;;
     Ok (Field_add (Field_of 0) field)).
Proof.
  intros H0.
  assert (verifyIf proof vk (negb (Field_equals (publicOutput proof) (Field_of 0)))
          = Ok tt) as Hskip
    by (rewrite H0, Field_equals_refl; apply verifyIf_false).
  assert (performAddition field proof vk =
          (assertEquals (vkHash vk) trustedMulVkHash UntrustedKey;;
           Ok (Field_add (Field_of 0) field))) as Hrun.
  { destruct (decide (vkHash vk = trustedMulVkHash)) as [Heq | Hne].
    - rewrite (performAddition_trusted _ _ _ Heq), Hskip, H0, Heq.
      rewrite assertEquals_refl; reflexivity.
    - rewrite (performAddition_untrusted _ _ _ Hne).
      rewrite (assertEquals_Err _ _ UntrustedKey Hne); reflexivity. }
  repeat split; try assumption.
  rewrite Hrun; next_assert; discriminate.
Qed.

(** C10: the key check comes first and does not depend on the skip: with a
    key whose hash is not [trustedMulVkHash] the method fails on the key
    check for every proof, the base case with public output 0 included. *)
Theorem performAddition_untrusted_key field proof vk :
  vkHash vk <> trustedMulVkHash ->
  performAddition field proof vk = Err UntrustedKey /\
  (publicOutput proof = Field_of 0 ->
   verifyIf proof vk (negb (Field_equals (publicOutput proof) (Field_of 0))) = Ok tt /\
   performAddition field proof vk = Err UntrustedKey).
Proof.
  intros Hne; pose proof (performAddition_untrusted field proof vk Hne) as Hfail.
  split; [assumption |].
  intros H0; split; [| assumption].
  rewrite H0, Field_equals_refl; apply verifyIf_false.
Qed.

(** C8: the run of the driver.  With the key of [multiply] hashing to the
    trusted constant and the proof of 3 * 3 verifying under that key, the
    base case on the dummy proof has public output 5, the multiplication 9,
    and the addition of 4 on the proof of 9 has public output 13; and
    whenever [performAddition] returns, it returns
    [proof.publicOutput + field]. *)
Theorem allowlist_scenario :
  let mulVk := Pickles_compile "multiply" in
  let nine := Field_mul (Field_of 3) (Field_of 3) in
  vkHash mulVk = trustedMulVkHash ->
  Pickles_verify tt nine (Pickles_prove "multiply" tt nine) mulVk = true ->
  performAddition (Field_of 5) (dummy tt (Field_of 0) 0%nat) mulVk = Ok (Field_of 5) /\
  performMultiplication (Field_of 3) (Field_of 3) = Ok (Field_of 9) /\
  (forall proofOf9 : DynamicMultiplyProof,
     publicOutput proofOf9 = Field_of 9 -> verify proofOf9 mulVk = true ->
     performAddition (Field_of 4) proofOf9 mulVk = Ok (Field_of 13)) /\
  driver = Ok (Field_of 5, Field_of 9, Field_of 13) /\
  (forall field proof vk out,
     performAddition field proof vk = Ok out ->
     out = Field_add (publicOutput proof) field).
Proof.
  intros mulVk nine Hkey Hmul.
  assert (performAddition (Field_of 5) (dummy tt (Field_of 0) 0%nat) mulVk
          = Ok (Field_of 5)) as Hbase.
  { rewrite (performAddition_trusted _ _ _ Hkey); simpl publicOutput.
    rewrite Field_equals_refl; simpl negb.
    rewrite verifyIf_false, bind_Ok, Field_of_5; reflexivity. }
  assert (forall proofOf9 : DynamicMultiplyProof,
     publicOutput proofOf9 = Field_of 9 -> verify proofOf9 mulVk = true ->
     performAddition (Field_of 4) proofOf9 mulVk = Ok (Field_of 13)) as Hrec.
  { intros p Hout Hver.
    rewrite (performAddition_trusted _ _ _ Hkey), Hout, Field_of_9_nonzero.
    simpl negb; rewrite (verifyIf_true _ _ Hver), bind_Ok, Field_of_13.
    reflexivity. }
  assert (performMultiplication (Field_of 3) (Field_of 3) = Ok (Field_of 9)) as Hnine
    by (unfold performMultiplication; rewrite Field_of_9; reflexivity).
  repeat split; try assumption.
  - unfold driver, add_performAddition, multiply_performMultiplication, prove.
    fold mulVk; rewrite Hbase, bind_Ok, bind_Ok.
    unfold performMultiplication; fold nine; rewrite bind_Ok, bind_Ok.
    rewrite (Hrec (fromProof _)).
    + rewrite !bind_Ok; simpl publicOutput; subst nine; rewrite Field_of_9.
      reflexivity.
    + simpl publicOutput; subst nine; apply Field_of_9.
    + exact Hmul.
  - apply performAddition_Ok.
Qed.

End Add.

(* ================================================================== *)
(** ** Authentication paths *)
(* ================================================================== *)

Section Registry.

Context `{B : Backend}.

Implicit Types (T : MerkleTree) (witness : MerkleTreeWitness) (index : N)
  (leaf : Field) (level : nat).

Lemma calculateRoot_nil leaf : calculateRoot [] leaf = leaf.
Proof. reflexivity. Qed.

Lemma calculateRoot_cons node witness leaf :
  calculateRoot (node :: witness) leaf =
  calculateRoot witness
    (Poseidon_hash (if isLeft node then [leaf; sibling node] else [sibling node; leaf])).
Proof. unfold calculateRoot; simpl; destruct (isLeft node); reflexivity. Qed.

Lemma N_double_div2 (m : N) : (2 * m / 2 = m)%N.
Proof. rewrite N.mul_comm; apply N.div_mul; discriminate. Qed.

Lemma N_succ_double_div2 (m : N) : ((2 * m + 1) / 2 = m)%N.
Proof.
  rewrite N.mul_comm, N.add_comm, N.div_add by discriminate.
  reflexivity.
Qed.

Lemma N_even_double index : N.even index = true -> (2 * (index / 2) = index)%N.
Proof.
  intros H; apply N.even_spec in H as [m ->]; rewrite N_double_div2; reflexivity.
Qed.

Lemma N_odd_double index :
  N.even index = false ->
  (2 * (index / 2) = index - 1 /\ 2 * (index / 2) + 1 = index)%N.
Proof.
  intros H.
  assert (N.odd index = true) as Ho by (rewrite <- N.negb_even, H; reflexivity).
  apply N.odd_spec in Ho as [m ->]; rewrite N_succ_double_div2; lia.
Qed.

Lemma N_pow2_succ level : (2 ^ N.of_nat (S level) = 2 ^ N.of_nat level * 2)%N.
Proof. rewrite Nat2N.inj_succ, N.pow_succ_r', N.mul_comm; reflexivity. Qed.

Lemma N_shift_succ index level :
  (index / 2 ^ N.of_nat level / 2 = index / 2 ^ N.of_nat (S level))%N.
Proof.
  rewrite N_pow2_succ, N.Div0.div_div; reflexivity.
Qed.

(** A node and its sibling hash to their parent. *)
Lemma getNode_parent T level index :
  Poseidon_hash
    (if N.even index
     then [getNode T level index; getNode T level (index + 1)%N]
     else [getNode T level (index - 1)%N; getNode T level index])
  = getNode T (S level) (index / 2)%N.
Proof.
  simpl; destruct (N.even index) eqn:E.
  - rewrite (N_even_double _ E); reflexivity.
  - destruct (N_odd_double _ E) as [-> ->]; reflexivity.
Qed.

(** The path of a node recomputes the ancestor it leads to. *)
Lemma calculateRoot_getWitness_from T n : forall level index,
  calculateRoot (getWitness_from T level n index) (getNode T level index)
  = getNode T (level + n) (index / 2 ^ N.of_nat n)%N.
Proof.
  induction n as [| n IH]; intros level index.
  - simpl getWitness_from; rewrite calculateRoot_nil, Nat.add_0_r.
    simpl; rewrite N.div_1_r; reflexivity.
  - simpl getWitness_from; rewrite calculateRoot_cons; simpl isLeft; simpl sibling.
    replace (Poseidon_hash _) with (getNode T (S level) (index / 2)%N).
    + rewrite IH, Nat.add_succ_r; simpl Nat.add.
      rewrite N_pow2_succ, N.mul_comm, N.Div0.div_div; reflexivity.
    + rewrite <- getNode_parent; destruct (N.even index); reflexivity.
Qed.

Lemma getLeaf_setLeaf T index leaf : getLeaf (setLeaf T index leaf) index = leaf.
Proof. unfold getLeaf, setLeaf; simpl; rewrite lookup_insert_eq; reflexivity. Qed.

Lemma getLeaf_setLeaf_ne T index leaf j :
  j <> index -> getLeaf (setLeaf T index leaf) j = getLeaf T j.
Proof.
  intros H; unfold getLeaf, setLeaf; simpl.
  rewrite lookup_insert_ne by congruence; reflexivity.
Qed.

(** Writing a leaf changes the nodes above it and no other. *)
Lemma getNode_setLeaf_ne T index leaf level : forall j,
  j <> (index / 2 ^ N.of_nat level)%N ->
  getNode (setLeaf T index leaf) level j = getNode T level j.
Proof.
  induction level as [| level IH]; intros j Hj.
  - simpl in *; rewrite N.div_1_r in Hj; apply getLeaf_setLeaf_ne, Hj.
  - simpl getNode; rewrite <- N_shift_succ in Hj.
    rewrite !IH; [reflexivity | |]; intros E; apply Hj; rewrite <- E.
    + symmetry; apply N_succ_double_div2.
    + symmetry; apply N_double_div2.
Qed.

(** The path of a leaf does not go through the leaf. *)
Lemma getWitness_from_setLeaf T index leaf n : forall level,
  getWitness_from (setLeaf T index leaf) level n (index / 2 ^ N.of_nat level)%N
  = getWitness_from T level n (index / 2 ^ N.of_nat level)%N.
Proof.
  induction n as [| n IH]; intros level; [reflexivity |].
  simpl getWitness_from; rewrite N_shift_succ, IH; f_equal; f_equal.
  apply getNode_setLeaf_ne.
  destruct (N.even _) eqn:E; [lia |].
  destruct (N_odd_double _ E) as [_ H]; lia.
Qed.

Lemma getWitness_setLeaf T index leaf :
  getWitness (setLeaf T index leaf) index = getWitness T index.
Proof.
  unfold getWitness; simpl depth.
  pose proof (getWitness_from_setLeaf T index leaf (depth T) 0) as H.
  simpl in H; rewrite N.div_1_r in H; exact H.
Qed.

Lemma calculateRoot_getWitness T index :
  (index < leafCount T)%N ->
  calculateRoot (getWitness T index) (getLeaf T index) = getRoot T.
Proof.
  intros H; unfold getWitness, getRoot.
  change (getLeaf T index) with (getNode T 0 index).
  rewrite calculateRoot_getWitness_from, N.div_small by exact H; reflexivity.
Qed.

(** What the path of a slot computes from a value is the root of the tree
    with that value written to the slot. *)
Lemma calculateRoot_setLeaf T index leaf :
  (index < leafCount T)%N ->
  calculateRoot (getWitness T index) leaf = getRoot (setLeaf T index leaf).
Proof.
  intros H.
  rewrite <- (getWitness_setLeaf T index leaf).
  rewrite <- (getLeaf_setLeaf T index leaf) at 2.
  apply calculateRoot_getWitness, H.
Qed.

(** Without a collision among the hashed lists, a path computes different
    roots from different leaves. *)
Lemma collisionFree_incl (xs ys : list (list Field)) :
  incl xs ys -> collisionFree ys -> collisionFree xs.
Proof. intros Hi Hc x y Hx Hy; apply Hc; apply Hi; assumption. Qed.

Lemma calculateRoot_injective witness : forall leaf leaf',
  collisionFree (hashedAlong witness leaf ++ hashedAlong witness leaf') ->
  leaf <> leaf' ->
  calculateRoot witness leaf <> calculateRoot witness leaf'.
Proof.
  induction witness as [| node witness IH]; intros leaf leaf' Hfree Hne.
  - rewrite !calculateRoot_nil; exact Hne.
  - rewrite !calculateRoot_cons; simpl hashedAlong in Hfree.
    apply IH.
    + eapply collisionFree_incl; [| exact Hfree].
      intros x Hx; apply in_app_or in Hx as [Hx | Hx].
      * right; apply in_or_app; left; exact Hx.
      * apply in_or_app; right; right; exact Hx.
    + intros Heq; apply Hfree in Heq.
      * destruct (isLeft node); congruence.
      * left; reflexivity.
      * apply in_or_app; right; left; reflexivity.
Qed.

End Registry.

(* ================================================================== *)
(** ** [mainProgram] *)
(* ================================================================== *)

Section Main.

Context `{B : Backend}.

Implicit Types (T : MerkleTree) (merkleWitness : MerkleTreeWitness) (index : N)
  (vk : VerificationKey) (proof : SideloadedProgramProof)
  (previous : Proof MainProgramState MainProgramState).

Lemma MainProgramState_eq (s s' : MainProgramState) :
  treeRoot s = treeRoot s' -> state s = state s' -> s = s'.
Proof. destruct s, s'; simpl; congruence. Qed.

Lemma addSideloadedProgram_empty publicInput vk merkleWitness :
  treeRoot publicInput = calculateRoot merkleWitness (Field_of 0) ->
  addSideloadedProgram publicInput vk merkleWitness =
    Ok {| state := state publicInput;
          treeRoot := calculateRoot merkleWitness (hash vk) |}.
Proof.
  intros H; unfold addSideloadedProgram; rewrite H, assertEquals_refl; reflexivity.
Qed.

Lemma addSideloadedProgram_occupied publicInput vk merkleWitness :
  treeRoot publicInput <> calculateRoot merkleWitness (Field_of 0) ->
  addSideloadedProgram publicInput vk merkleWitness = Err SlotOccupied.
Proof.
  intros H; unfold addSideloadedProgram.
  rewrite (assertEquals_Err _ _ SlotOccupied H); reflexivity.
Qed.

Lemma addSideloadedProgram_succeeds publicInput vk merkleWitness :
  succeeds (addSideloadedProgram publicInput vk merkleWitness) <->
  calculateRoot merkleWitness (Field_of 0) = treeRoot publicInput.
Proof.
  destruct (decide (treeRoot publicInput = calculateRoot merkleWitness (Field_of 0)))
    as [Heq | Hne].
  - rewrite (addSideloadedProgram_empty _ _ _ Heq); split; auto with circuit.
  - rewrite (addSideloadedProgram_occupied _ _ _ Hne); split; [| congruence].
    intros H; exfalso; revert H; apply succeeds_Err.
Qed.

(** C2: a Validate step whose predecessor's output is the input state
    [{root, value}], whose key is under [root] by the witness and whose child
    proof verifies with public input [value], succeeds; its output keeps the
    root and takes the child proof's public output as the new value. *)
Theorem validateUsingTree_Ok (root value : Field) previous vk merkleWitness proof :
  publicOutput previous = {| treeRoot := root; state := value |} ->
  calculateRoot merkleWitness (hash vk) = root ->
  verify proof vk = true ->
  publicInput proof = value ->
  validateUsingTree {| treeRoot := root; state := value |} previous vk
    merkleWitness proof
  = Ok {| treeRoot := root; state := publicOutput proof |}.
Proof.
  intros Hprev Hroot Hver Hin.
  unfold validateUsingTree; rewrite Hprev; simpl treeRoot; simpl state.
  rewrite !assertEquals_refl, !bind_Ok, Hroot, assertEquals_refl, bind_Ok.
  unfold verify_; rewrite (verifyIf_true _ _ Hver), bind_Ok.
  destruct proof as [pin pout n pi]; simpl in Hin; subst pin.
  rewrite assertEquals_refl; reflexivity.
Qed.

(** C3: a Validate step on a state [S] with a predecessor whose output is not
    [S], in the root or in the value, fails with [ContinuityBroken], whatever
    the key, the witness and the child proof are; it cannot succeed. *)
Theorem validateUsingTree_continuity (S : MainProgramState) previous vk
    merkleWitness proof :
  publicOutput previous <> S ->
  validateUsingTree S previous vk merkleWitness proof = Err ContinuityBroken /\
  ~ succeeds (validateUsingTree S previous vk merkleWitness proof).
Proof.
  intros Hne.
  assert (validateUsingTree S previous vk merkleWitness proof = Err ContinuityBroken)
    as Hfail.
  { unfold validateUsingTree.
    next_assert; [| reflexivity].
    next_assert; [| reflexivity].
    exfalso; apply Hne, MainProgramState_eq; assumption. }
  split; [exact Hfail |].
  rewrite Hfail; apply succeeds_Err.
Qed.

(** C4: when the path of slot [index] recomputes the current root from
    [EMPTY], the insertion succeeds with the root the path computes from the
    key's hash; that root is the root of the tree with the hash written to
    the slot, and the fresh path of the slot in the updated tree computes it
    from the hash as well (the driver passes this fresh path to the method). *)
Theorem insert_fresh_witness T index vk (value : Field) :
  (index < leafCount T)%N ->
  calculateRoot (getWitness T index) EMPTY = getRoot T ->
  let newRoot := calculateRoot (getWitness T index) (hash vk) in
  let T' := setLeaf T index (hash vk) in
  addSideloadedProgram {| treeRoot := getRoot T; state := value |} vk
    (getWitness T index) = Ok {| treeRoot := newRoot; state := value |} /\
  addSideloadedProgram {| treeRoot := getRoot T; state := value |} vk
    (getWitness T' index) = Ok {| treeRoot := newRoot; state := value |} /\
  calculateRoot (getWitness T' index) (hash vk) = newRoot /\
  getRoot T' = newRoot.
Proof.
  intros Hin Hempty newRoot T'; subst newRoot T'.
  rewrite getWitness_setLeaf.
  assert (addSideloadedProgram {| treeRoot := getRoot T; state := value |} vk
            (getWitness T index)
          = Ok {| treeRoot := calculateRoot (getWitness T index) (hash vk);
                  state := value |}) as Hrun
    by (apply addSideloadedProgram_empty; simpl; symmetry; exact Hempty).
  repeat split; try exact Hrun.
  symmetry; apply calculateRoot_setLeaf, Hin.
Qed.

(** C5: inserting at a slot that holds a value other than [EMPTY] fails with
    [SlotOccupied], for every key, the one whose hash the slot already holds
    included.  The hash is taken to be free of collisions on the lists hashed
    along the path of the slot (from [EMPTY] and from the stored value). *)
Theorem insert_occupied T index vk (value : Field) :
  (index < leafCount T)%N ->
  getLeaf T index <> EMPTY ->
  collisionFree (hashedAlong (getWitness T index) EMPTY ++
                 hashedAlong (getWitness T index) (getLeaf T index)) ->
  addSideloadedProgram {| treeRoot := getRoot T; state := value |} vk
    (getWitness T index) = Err SlotOccupied.
Proof.
  intros Hin Hfull Hfree.
  apply addSideloadedProgram_occupied; simpl treeRoot.
  rewrite <- (calculateRoot_getWitness T index Hin).
  intros Heq; revert Heq; apply not_eq_sym.
  apply calculateRoot_injective; [exact Hfree |].
  intros Heq; apply Hfull; symmetry; exact Heq.
Qed.

(** C6: a RegistryUpdate step that succeeds leaves the value of the state as
    it was; only the root changes. *)
Theorem addSideloadedProgram_frame publicInput vk merkleWitness out :
  addSideloadedProgram publicInput vk merkleWitness = Ok out ->
  state out = state publicInput.
Proof.
  unfold addSideloadedProgram; next_assert; [| discriminate].
  intros H; injection H as <-; reflexivity.
Qed.

(** C9: [addSideloadedProgram] takes no predecessor proof, and succeeds
    exactly when the witness recomputes the claimed root from [Field(0)]:
    neither the value of the claimed state nor the key enters the check. *)
Theorem addSideloadedProgram_guard publicInput vk merkleWitness :
  (succeeds (addSideloadedProgram publicInput vk merkleWitness) <->
   calculateRoot merkleWitness (Field_of 0) = treeRoot publicInput) /\
  (forall (value : Field) vk',
     succeeds (addSideloadedProgram
                 {| treeRoot := treeRoot publicInput; state := value |} vk'
                 merkleWitness) <->
     succeeds (addSideloadedProgram publicInput vk merkleWitness)).
Proof.
  split; [apply addSideloadedProgram_succeeds |].
  intros value vk'; rewrite !addSideloadedProgram_succeeds; reflexivity.
Qed.

End Main.

(* ================================================================== *)
(** ** The outcomes of [performAddition] and of its driver *)
(* ================================================================== *)

(** Settles the equivalences between an outcome that is known and the
    conditions for each outcome. *)
Ltac outcome :=
  repeat split; intros;
  repeat match goal with H : _ /\ _ |- _ => destruct H end;
  try discriminate; try congruence; try contradiction;
  try apply succeeds_Ok;
  try (exfalso; eapply succeeds_Err; eassumption);
  try (split; [assumption | reflexivity]).

Section AddOutcomes.

Context `{B : Backend}.

Implicit Types (field : Field) (proof : DynamicMultiplyProof) (vk : VerificationKey).

#[local] Abbreviation keyHash vk := (Poseidon_hash (VerificationKey_toFields vk)).

(** The three ways [performAddition] ends with a trusted key. *)
Lemma performAddition_base field proof vk :
  keyHash vk = trustedMulVkHash -> publicOutput proof = Field_of 0 ->
  performAddition field proof vk = Ok (Field_add (publicOutput proof) field).
Proof.
  intros Hkey H0; rewrite (performAddition_trusted _ _ _ Hkey), H0.
  rewrite Field_equals_refl; reflexivity.
Qed.

Lemma performAddition_verified field proof vk :
  keyHash vk = trustedMulVkHash -> verify proof vk = true ->
  performAddition field proof vk = Ok (Field_add (publicOutput proof) field).
Proof.
  intros Hkey Hver; rewrite (performAddition_trusted _ _ _ Hkey).
  unfold verifyIf; rewrite Hver; destruct (negb _); reflexivity.
Qed.

Lemma performAddition_rejected field proof vk :
  keyHash vk = trustedMulVkHash -> publicOutput proof <> Field_of 0 ->
  verify proof vk = false ->
  performAddition field proof vk = Err ProofInvalid.
Proof.
  intros Hkey Hne Hver; rewrite (performAddition_trusted _ _ _ Hkey).
  apply Field_equals_false in Hne; rewrite Hne; unfold verifyIf; simpl negb.
  rewrite Hver; reflexivity.
Qed.

Lemma performAddition_outcome field proof vk :
  (keyHash vk <> trustedMulVkHash /\
   performAddition field proof vk = Err UntrustedKey) \/
  (keyHash vk = trustedMulVkHash /\ publicOutput proof <> Field_of 0 /\
   verify proof vk = false /\
   performAddition field proof vk = Err ProofInvalid) \/
  (keyHash vk = trustedMulVkHash /\
   (publicOutput proof = Field_of 0 \/ verify proof vk = true) /\
   performAddition field proof vk = Ok (Field_add (publicOutput proof) field)).
Proof.
  destruct (decide (keyHash vk = trustedMulVkHash)) as [Hkey | Hkey].
  - right.
    destruct (decide (publicOutput proof = Field_of 0)) as [H0 | H0].
    + right; auto using performAddition_base.
    + destruct (verify proof vk) eqn:Hver.
      * right; auto using performAddition_verified.
      * left; auto using performAddition_rejected.
  - left; auto using performAddition_untrusted.
Qed.

(** X1: [performAddition] returns exactly when the key is the trusted one and
    the wrapped proof either has public output 0 or verifies under the key. *)
Theorem performAddition_succeeds_iff field proof vk :
  succeeds (performAddition field proof vk) <->
  keyHash vk = trustedMulVkHash /\
  (publicOutput proof = Field_of 0 \/ verify proof vk = true).
Proof.
  destruct (performAddition_outcome field proof vk)
    as [[Hkey ->] | [(Hkey & H0 & Hver & ->) | (Hkey & Hor & ->)]].
  - split; [intros H; exfalso; revert H; apply succeeds_Err | tauto].
  - split; [intros H; exfalso; revert H; apply succeeds_Err |].
    intros [_ [H | H]]; [contradiction | congruence].
  - split; [tauto | intros _; apply succeeds_Ok].
Qed.

(** X2: the path without skip.  [performAddition] fails on the verification
    exactly when the key is trusted, the public output of the wrapped proof
    is not 0 and the proof does not verify under the key. *)
Theorem performAddition_ProofInvalid_iff field proof vk :
  performAddition field proof vk = Err ProofInvalid <->
  keyHash vk = trustedMulVkHash /\ publicOutput proof <> Field_of 0 /\
  verify proof vk = false.
Proof.
  destruct (performAddition_outcome field proof vk)
    as [[Hkey ->] | [(Hkey & H0 & Hver & ->) | (Hkey & Hor & ->)]].
  - split; [discriminate | tauto].
  - tauto.
  - split; [discriminate |].
    intros (_ & H0 & Hver); destruct Hor; [contradiction | congruence].
Qed.

(** X3: how the driver ends.  It stops at the base case when the key that
    [multiply] compiles to does not hash to the hard-coded constant, stops at
    the recursive addition when the backend does not accept the proof of
    3 * 3 under that key, and runs through otherwise. *)
Theorem driver_outcome :
  let mulVk := Pickles_compile "multiply" in
  let nine := Field_mul (Field_of 3) (Field_of 3) in
  let accepted := Pickles_verify tt nine (Pickles_prove "multiply" tt nine) mulVk in
  (driver = Err UntrustedKey <-> keyHash mulVk <> trustedMulVkHash) /\
  (driver = Err ProofInvalid <-> keyHash mulVk = trustedMulVkHash /\ accepted = false) /\
  (succeeds driver <-> keyHash mulVk = trustedMulVkHash /\ accepted = true).
Proof.
  intros mulVk nine accepted.
  destruct (decide (keyHash mulVk = trustedMulVkHash)) as [Hkey | Hkey].
  - assert (driver =
            (add2 ← add_performAddition (Field_of 4)
                      (fromProof {| publicInput := tt; publicOutput := nine;
                                    maxProofsVerified := 0%nat;
                                    proof := Pickles_prove "multiply" tt nine |})
                      mulVk;
             Ok (Field_add (Field_of 0) (Field_of 5), nine, publicOutput add2)))
      as Hrun.
    { unfold driver; cbv zeta; fold mulVk.
      unfold add_performAddition, prove.
      rewrite (performAddition_base _ _ _ Hkey) by reflexivity.
      reflexivity. }
    destruct accepted eqn:Hacc.
    + assert (succeeds driver) as [out Hout].
      { rewrite Hrun; unfold add_performAddition, prove.
        rewrite (performAddition_verified _ _ _ Hkey) by exact Hacc.
        apply succeeds_Ok. }
      rewrite Hout; outcome.
    + assert (driver = Err ProofInvalid) as Hfail.
      { rewrite Hrun; unfold add_performAddition, prove.
        rewrite (performAddition_rejected _ _ _ Hkey); [reflexivity | | exact Hacc].
        simpl publicOutput; subst nine; rewrite Field_of_9.
        apply Field_equals_false; reflexivity. }
      rewrite Hfail; outcome.
  - assert (driver = Err UntrustedKey) as Hfail.
    { unfold driver; cbv zeta; fold mulVk.
      unfold add_performAddition, prove.
      rewrite (performAddition_untrusted _ _ _ Hkey); reflexivity. }
    rewrite Hfail; outcome.
Qed.

End AddOutcomes.

(* ================================================================== *)
(** ** An addition on top of a multiplication *)
(* ================================================================== *)

Section AddChain.

Context `{B : Backend}.

(** X13: the two programs compose.  With the trusted key, an addition that
    consumes the proof of a multiplication returns the product plus the
    field, when the backend accepts that proof under the key, and also when
    it does not but the product is 0: a proof of a product 0 is taken as the
    base case and not verified. *)
Theorem add_after_multiply (field1 field2 field : Field) (vk : VerificationKey)
    (multiply1 : Proof unit Field) :
  Poseidon_hash (VerificationKey_toFields vk) = trustedMulVkHash ->
  multiply_performMultiplication field1 field2 = Ok multiply1 ->
  verify multiply1 vk = true \/ Field_mul field1 field2 = Field_of 0 ->
  performAddition field (fromProof multiply1) vk
  = Ok (Field_add (Field_mul field1 field2) field).
Proof.
  intros Hkey Hmul Hor; injection Hmul as <-.
  destruct Hor as [Hver | H0].
  - rewrite (performAddition_verified _ _ _ Hkey); [reflexivity | exact Hver].
  - rewrite (performAddition_base _ _ _ Hkey); [reflexivity | exact H0].
Qed.

End AddChain.

(* ================================================================== *)
(** ** The side-loaded programs *)
(* ================================================================== *)

Section Children.

Implicit Types (publicInput privateInput out : Field).

Lemma assertLessThanOrEqual_cases (x y : Field) (e : Error) :
  (toBigInt x <= toBigInt y /\ assertLessThanOrEqual x y e = Ok tt) \/
  (toBigInt y < toBigInt x /\ assertLessThanOrEqual x y e = Err e).
Proof.
  unfold assertLessThanOrEqual; destruct (toBigInt x <=? toBigInt y) eqn:E.
  - left; split; [apply Z.leb_le, E | reflexivity].
  - right; split; [apply Z.leb_gt, E | reflexivity].
Qed.

(** X4: the guarded methods prove a part of what the unguarded ones prove.
    [assertAndAdd] and [assertAndMul] return exactly when the public input is
    at most the private input, as bigints, and fail on the assertion
    otherwise; when they return, they return what [compute] of their program
    returns on the same inputs. *)
Theorem guarded_methods publicInput privateInput :
  (succeeds (assertAndAdd publicInput privateInput)
     <-> toBigInt publicInput <= toBigInt privateInput) /\
  (assertAndAdd publicInput privateInput = Err ConstraintViolation
     <-> toBigInt privateInput < toBigInt publicInput) /\
  (forall out, assertAndAdd publicInput privateInput = Ok out ->
               compute publicInput privateInput = Ok out) /\
  (succeeds (assertAndMul publicInput privateInput)
     <-> toBigInt publicInput <= toBigInt privateInput) /\
  (assertAndMul publicInput privateInput = Err ConstraintViolation
     <-> toBigInt privateInput < toBigInt publicInput) /\
  (forall out, assertAndMul publicInput privateInput = Ok out ->
               compute2 publicInput privateInput = Ok out).
Proof.
  unfold assertAndAdd, assertAndMul, compute, compute2.
  destruct (assertLessThanOrEqual_cases publicInput privateInput ConstraintViolation)
    as [[Hle ->] | [Hgt ->]]; rewrite ?bind_Ok, ?bind_Err.
  - repeat split; intros; try discriminate; try assumption; try lia;
      apply succeeds_Ok.
  - repeat split; intros; try discriminate; try assumption; try lia;
      exfalso; eapply succeeds_Err; eassumption.
Qed.

End Children.

(* ================================================================== *)
(** ** The outcomes of [validateUsingTree] *)
(* ================================================================== *)

Section MainOutcomes.

Context `{B : Backend}.

Implicit Types (T : MerkleTree) (merkleWitness : MerkleTreeWitness)
  (vk : VerificationKey) (proof : SideloadedProgramProof)
  (previous : Proof MainProgramState MainProgramState) (S : MainProgramState).

#[global] Instance MainProgramState_eq_dec : EqDecision MainProgramState.
Proof. solve_decision. Defined.

Lemma validateUsingTree_run S previous vk merkleWitness proof :
  publicOutput previous = S ->
  treeRoot S = calculateRoot merkleWitness (hash vk) ->
  verify proof vk = true ->
  publicInput proof = state S ->
  validateUsingTree S previous vk merkleWitness proof
  = Ok {| treeRoot := treeRoot S; state := publicOutput proof |}.
Proof.
  intros Hprev Hroot Hver Hin; unfold validateUsingTree.
  rewrite Hprev, !assertEquals_refl, !bind_Ok, <- Hroot, assertEquals_refl, bind_Ok.
  unfold verify_; rewrite (verifyIf_true _ _ Hver), bind_Ok.
  destruct proof as [pin pout n pi]; simpl in Hin; subst pin.
  rewrite assertEquals_refl; reflexivity.
Qed.

(** The five ways [validateUsingTree] ends, by the first check that does not
    hold. *)
Lemma validateUsingTree_outcome S previous vk merkleWitness proof :
  let r := validateUsingTree S previous vk merkleWitness proof in
  (publicOutput previous <> S /\ r = Err ContinuityBroken) \/
  (publicOutput previous = S /\
   treeRoot S <> calculateRoot merkleWitness (hash vk) /\ r = Err UntrustedKey) \/
  (publicOutput previous = S /\
   treeRoot S = calculateRoot merkleWitness (hash vk) /\
   verify proof vk = false /\ r = Err ProofInvalid) \/
  (publicOutput previous = S /\
   treeRoot S = calculateRoot merkleWitness (hash vk) /\
   verify proof vk = true /\ publicInput proof <> state S /\
   r = Err ConstraintViolation) \/
  (publicOutput previous = S /\
   treeRoot S = calculateRoot merkleWitness (hash vk) /\
   verify proof vk = true /\ publicInput proof = state S /\
   r = Ok {| treeRoot := treeRoot S; state := publicOutput proof |}).
Proof.
  intros r; subst r.
  destruct (decide (publicOutput previous = S)) as [Hprev | Hprev].
  - right.
    destruct (decide (treeRoot S = calculateRoot merkleWitness (hash vk)))
      as [Hroot | Hroot].
    + right.
      destruct (verify proof vk) eqn:Hver.
      * right.
        destruct (decide (publicInput proof = state S)) as [Hin | Hin].
        -- right; repeat split; try assumption.
           apply validateUsingTree_run; assumption.
        -- left; repeat split; try assumption.
           unfold validateUsingTree.
           rewrite Hprev, !assertEquals_refl, !bind_Ok, <- Hroot.
           rewrite assertEquals_refl, bind_Ok.
           unfold verify_; rewrite (verifyIf_true _ _ Hver), bind_Ok.
           destruct proof as [pin pout n pi]; simpl in Hin.
           rewrite (assertEquals_Err _ _ ConstraintViolation Hin); reflexivity.
      * left; repeat split; try assumption.
        unfold validateUsingTree.
        rewrite Hprev, !assertEquals_refl, !bind_Ok, <- Hroot.
        rewrite assertEquals_refl, bind_Ok.
        unfold verify_, verifyIf; rewrite Hver; reflexivity.
    + left; repeat split; try assumption.
      unfold validateUsingTree.
      rewrite Hprev, !assertEquals_refl, !bind_Ok.
      rewrite (assertEquals_Err _ _ UntrustedKey Hroot); reflexivity.
  - left; split; [assumption |].
    unfold validateUsingTree.
    next_assert; [| reflexivity].
    next_assert; [| reflexivity].
    exfalso; apply Hprev, MainProgramState_eq; assumption.
Qed.

(** X5: a Validate step that returns has passed every check.  The
    predecessor's output is the input state, the witness computes the root
    of the state from the hash of the key, the child proof verifies under
    the key and its public input is the value of the state; the output keeps
    the root and takes the child proof's public output. *)
Theorem validateUsingTree_inversion S previous vk merkleWitness proof out :
  validateUsingTree S previous vk merkleWitness proof = Ok out ->
  publicOutput previous = S /\
  calculateRoot merkleWitness (hash vk) = treeRoot S /\
  verify proof vk = true /\
  publicInput proof = state S /\
  out = {| treeRoot := treeRoot S; state := publicOutput proof |}.
Proof.
  destruct (validateUsingTree_outcome S previous vk merkleWitness proof)
    as [[_ ->] | [(_ & _ & ->) | [(_ & _ & _ & ->) | [(_ & _ & _ & _ & ->) |
        (Hprev & Hroot & Hver & Hin & ->)]]]]; try discriminate.
  intros H; injection H as <-; auto.
Qed.



End MainOutcomes.

(* ================================================================== *)
(** ** Chains of steps over the registry *)
(* ================================================================== *)

Section Chains.

Context `{B : Backend}.

Implicit Types (T : MerkleTree) (index i j : N) (leaf value : Field)
  (vk : VerificationKey) (proof : SideloadedProgramProof)
  (previous : Proof MainProgramState MainProgramState).

Lemma leafCount_setLeaf T index leaf : leafCount (setLeaf T index leaf) = leafCount T.
Proof. reflexivity. Qed.

Lemma setLeaf_commute T i j (a b : Field) :
  i <> j -> setLeaf (setLeaf T i a) j b = setLeaf (setLeaf T j b) i a.
Proof.
  intros H; unfold setLeaf; simpl; f_equal.
  apply insert_insert_ne; congruence.
Qed.

Lemma calculateRoot_empty_slot T index :
  (index < leafCount T)%N -> getLeaf T index = EMPTY ->
  calculateRoot (getWitness T index) (Field_of 0) = getRoot T.
Proof.
  intros Hin Hempty; rewrite <- (calculateRoot_getWitness T index Hin), Hempty.
  reflexivity.
Qed.

Lemma calculateRoot_registered T index vk :
  (index < leafCount T)%N -> getLeaf T index = hash vk ->
  calculateRoot (getWitness T index) (hash vk) = getRoot T.
Proof.
  intros Hin Hleaf; rewrite <- Hleaf; apply calculateRoot_getWitness, Hin.
Qed.

(** Registering a key at an empty slot, with the path of the slot. *)
Lemma register_run T index vk value :
  (index < leafCount T)%N -> getLeaf T index = EMPTY ->
  addSideloadedProgram {| treeRoot := getRoot T; state := value |} vk
    (getWitness T index)
  = Ok {| treeRoot := getRoot (setLeaf T index (hash vk)); state := value |}.
Proof.
  intros Hin Hempty.
  rewrite addSideloadedProgram_empty
    by (simpl; symmetry; apply calculateRoot_empty_slot; assumption).
  simpl state; rewrite (calculateRoot_setLeaf T index (hash vk) Hin).
  apply f_equal, MainProgramState_eq; reflexivity.
Qed.


(** Validating a child proof under a registered key, with the path of its
    slot. *)
Lemma validate_run T index vk value previous proof :
  (index < leafCount T)%N -> getLeaf T index = hash vk ->
  publicOutput previous = {| treeRoot := getRoot T; state := value |} ->
  verify proof vk = true -> publicInput proof = value ->
  validateUsingTree {| treeRoot := getRoot T; state := value |} previous vk
    (getWitness T index) proof
  = Ok {| treeRoot := getRoot T; state := publicOutput proof |}.
Proof.
  intros Hin Hleaf Hprev Hver Hpub.
  apply (validateUsingTree_run _ previous vk _ proof Hprev); simpl;
    [symmetry; apply calculateRoot_registered | |]; assumption.
Qed.

(** X8: two RegistryUpdate steps at two empty slots compose, in either order:
    the second step takes the output of the first and the path of its slot in
    the tree the first key was written to, and both orders end in the state
    whose root is the root of the tree with the two hashes written; the value
    stays. *)
Theorem two_registrations T i j (vk1 vk2 : VerificationKey) value :
  i <> j ->
  (i < leafCount T)%N -> (j < leafCount T)%N ->
  getLeaf T i = EMPTY -> getLeaf T j = EMPTY ->
  let T1 := setLeaf T i (hash vk1) in
  let T2 := setLeaf T j (hash vk2) in
  let genesis := {| treeRoot := getRoot T; state := value |} in
  let both := {| treeRoot := getRoot (setLeaf T1 j (hash vk2)); state := value |} in
  (s ← addSideloadedProgram genesis vk1 (getWitness T i);
   addSideloadedProgram s vk2 (getWitness T1 j)) = Ok both /\
  (s ← addSideloadedProgram genesis vk2 (getWitness T j);
   addSideloadedProgram s vk1 (getWitness T2 i)) = Ok both.
Proof.
  intros Hij Hi Hj Ei Ej T1 T2 genesis both; subst genesis both.
  split.
  - rewrite (register_run T i vk1 value Hi Ei), bind_Ok; fold T1.
    apply register_run; [exact Hj |].
    subst T1; rewrite getLeaf_setLeaf_ne by congruence; exact Ej.
  - rewrite (register_run T j vk2 value Hj Ej), bind_Ok; fold T2.
    subst T1; rewrite (setLeaf_commute T i j _ _ Hij); fold T2.
    apply register_run; [exact Hi |].
    subst T2; rewrite getLeaf_setLeaf_ne by congruence; exact Ei.
Qed.

(** X9: a registered key stays usable after a later write to another slot,
    with the path of its slot recomputed in the updated tree: the Validate
    step on the new root succeeds. *)
Theorem validate_recomputed_witness T i j vk leaf value previous proof :
  i <> j ->
  (i < leafCount T)%N ->
  getLeaf T i = hash vk ->
  let T' := setLeaf T j leaf in
  publicOutput previous = {| treeRoot := getRoot T'; state := value |} ->
  verify proof vk = true ->
  publicInput proof = value ->
  validateUsingTree {| treeRoot := getRoot T'; state := value |} previous vk
    (getWitness T' i) proof
  = Ok {| treeRoot := getRoot T'; state := publicOutput proof |}.
Proof.
  intros Hij Hi Hleaf T' Hprev Hver Hpub.
  apply validate_run; try assumption.
  subst T'; rewrite getLeaf_setLeaf_ne by congruence; exact Hleaf.
Qed.

(** X10: the path of a key's slot taken before a write that changed the root
    is stale: the Validate step on the new root with the old path fails on
    the inclusion of the key. *)
Theorem validate_stale_witness T i j vk leaf value previous proof :
  (i < leafCount T)%N ->
  getLeaf T i = hash vk ->
  let T' := setLeaf T j leaf in
  getRoot T' <> getRoot T ->
  publicOutput previous = {| treeRoot := getRoot T'; state := value |} ->
  validateUsingTree {| treeRoot := getRoot T'; state := value |} previous vk
    (getWitness T i) proof
  = Err UntrustedKey.
Proof.
  intros Hi Hleaf T' Hroot Hprev.
  destruct (validateUsingTree_outcome {| treeRoot := getRoot T'; state := value |}
              previous vk (getWitness T i) proof)
    as [[Hc _] | [(_ & _ & H) | [(_ & Hr & _) | [(_ & Hr & _) | (_ & Hr & _)]]]];
    [contradiction | exact H | | |];
    simpl in Hr; rewrite (calculateRoot_registered T i vk Hi Hleaf) in Hr;
    contradiction.
Qed.

(** X11: a Validate step over a proof of [compute] on the current value adds
    the private input to the value, and over a proof of [compute] of the
    second program multiplies the value by it; the root stays. *)
Theorem validate_compute_step (root value privateInput : Field) previous vk
    merkleWitness (childProof : Proof Field Field) :
  publicOutput previous = {| treeRoot := root; state := value |} ->
  calculateRoot merkleWitness (hash vk) = root ->
  verify (fromProof childProof) vk = true ->
  (sideloadedProgram_compute value privateInput = Ok childProof ->
   validateUsingTree {| treeRoot := root; state := value |} previous vk
     merkleWitness (fromProof childProof)
   = Ok {| treeRoot := root; state := Field_add value privateInput |}) /\
  (sideloadedProgram2_compute value privateInput = Ok childProof ->
   validateUsingTree {| treeRoot := root; state := value |} previous vk
     merkleWitness (fromProof childProof)
   = Ok {| treeRoot := root; state := Field_mul value privateInput |}).
Proof.
  intros Hprev Hroot Hver.
  split; intros Hchild; injection Hchild as <-;
    rewrite (validateUsingTree_run _ previous vk merkleWitness _ Hprev
               (eq_sym Hroot) Hver eq_refl);
    reflexivity.
Qed.

(** X14: the hash 0 is the mark of an empty slot.  Registering a key whose
    hash is 0 succeeds on an empty slot and returns the input state as it
    is: the root does not move, and the slot passes for empty afterwards. *)
Theorem addSideloadedProgram_zero_hash (publicInput : MainProgramState) vk
    (merkleWitness : MerkleTreeWitness) :
  hash vk = Field_of 0 ->
  calculateRoot merkleWitness (Field_of 0) = treeRoot publicInput ->
  addSideloadedProgram publicInput vk merkleWitness = Ok publicInput /\
  succeeds (s ← addSideloadedProgram publicInput vk merkleWitness;
            addSideloadedProgram s vk merkleWitness).
Proof.
  intros Hzero Hroot.
  assert (addSideloadedProgram publicInput vk merkleWitness = Ok publicInput) as Hrun.
  { rewrite addSideloadedProgram_empty by (symmetry; exact Hroot).
    rewrite Hzero, Hroot; apply f_equal, MainProgramState_eq; reflexivity. }
  split; [exact Hrun |].
  rewrite Hrun, bind_Ok, Hrun; apply succeeds_Ok.
Qed.





End Chains.

(* ================================================================== *)
(** ** Runs on the small backend *)
(* ================================================================== *)

Section Runs.

#[local] Existing Instance Toy.backend.

(** Running the driver on the small backend: the dummy proof of the base
    case does not verify, and a key other than the one of [multiply] is not
    trusted. *)
Lemma Toy_mulVk_trusted :
  Poseidon_hash (VerificationKey_toFields Toy.mulVk) = trustedMulVkHash.
Proof. apply Field_eq; reflexivity. Qed.

Lemma Toy_otherVk_untrusted :
  Poseidon_hash (VerificationKey_toFields Toy.otherVk) <> trustedMulVkHash.
Proof. intros H; apply (f_equal toBigInt) in H; vm_compute in H; discriminate. Qed.

Lemma performAddition_skip_witness :
  publicOutput Toy.dummyProof = Field_of 0 /\
  verify Toy.dummyProof Toy.mulVk = false /\
  performAddition (Field_of 5) Toy.dummyProof Toy.mulVk <> Err ProofInvalid.
Proof.
  split; [reflexivity | split; [reflexivity |]].
  exact (proj1 (proj2
    (performAddition_skip (Field_of 5) Toy.dummyProof Toy.mulVk eq_refl))).
Defined.

Lemma performAddition_untrusted_key_witness :
  Poseidon_hash (VerificationKey_toFields Toy.otherVk) <> trustedMulVkHash /\
  performAddition (Field_of 5) Toy.dummyProof Toy.otherVk = Err UntrustedKey.
Proof.
  split; [exact Toy_otherVk_untrusted |].
  exact (proj1 (performAddition_untrusted_key (Field_of 5) Toy.dummyProof
                  Toy.otherVk Toy_otherVk_untrusted)).
Defined.

Lemma allowlist_scenario_witness :
  Poseidon_hash (VerificationKey_toFields Toy.mulVk) = trustedMulVkHash /\
  driver = Ok (Field_of 5, Field_of 9, Field_of 13).
Proof.
  split; [exact Toy_mulVk_trusted |].
  exact (proj1 (proj2 (proj2 (proj2
    (allowlist_scenario Toy_mulVk_trusted eq_refl))))).
Defined.

(** The registry of depth 2: slot 1 is empty in [Toy.emptyTree] and holds the
    hash of [Toy.mulVk] in [Toy.tree1]. *)
Lemma Toy_index_in_range : (1 < leafCount Toy.emptyTree)%N.
Proof. reflexivity. Qed.

Lemma Toy_slot_empty :
  calculateRoot (getWitness Toy.emptyTree 1%N) EMPTY = getRoot Toy.emptyTree.
Proof. apply Field_eq; vm_compute; reflexivity. Qed.

Lemma Toy_slot_occupied : getLeaf Toy.tree1 1%N <> EMPTY.
Proof. intros H; apply (f_equal toBigInt) in H; vm_compute in H; discriminate. Qed.

Lemma Toy_mulVk_included :
  calculateRoot (getWitness Toy.tree1 1%N) (hash Toy.mulVk) = getRoot Toy.tree1.
Proof. apply Field_eq; vm_compute; reflexivity. Qed.

Lemma Toy_previousOff : publicOutput Toy.previousOff <> Toy.state1.
Proof.
  intros H; apply (f_equal state), (f_equal toBigInt) in H.
  vm_compute in H; discriminate.
Qed.

Lemma Toy_collisionFree :
  collisionFree (hashedAlong (getWitness Toy.tree1 1%N) EMPTY ++
                 hashedAlong (getWitness Toy.tree1 1%N) (getLeaf Toy.tree1 1%N)).
Proof.
  intros x y Hx Hy Heq.
  apply (f_equal toBigInt) in Heq.
  simpl in Hx, Hy.
  repeat (destruct Hx as [<- | Hx]); try contradiction;
    repeat (destruct Hy as [<- | Hy]); try contradiction;
    try reflexivity; vm_compute in Heq; discriminate.
Qed.

Lemma validateUsingTree_Ok_witness :
  verify Toy.childProof Toy.mulVk = true /\
  validateUsingTree Toy.state1 Toy.previous1 Toy.mulVk (getWitness Toy.tree1 1%N)
    Toy.childProof
  = Ok {| treeRoot := getRoot Toy.tree1; state := Field_of 10 |}.
Proof.
  split; [reflexivity |].
  exact (validateUsingTree_Ok (getRoot Toy.tree1) (Field_of 0) Toy.previous1
           Toy.mulVk (getWitness Toy.tree1 1%N) Toy.childProof
           eq_refl Toy_mulVk_included eq_refl eq_refl).
Defined.

Lemma validateUsingTree_continuity_witness :
  publicOutput Toy.previousOff <> Toy.state1 /\
  validateUsingTree Toy.state1 Toy.previousOff Toy.mulVk (getWitness Toy.tree1 1%N)
    Toy.childProof
  = Err ContinuityBroken.
Proof.
  split; [exact Toy_previousOff |].
  exact (proj1 (validateUsingTree_continuity Toy.state1 Toy.previousOff Toy.mulVk
                  (getWitness Toy.tree1 1%N) Toy.childProof Toy_previousOff)).
Defined.

Lemma insert_fresh_witness_witness :
  calculateRoot (getWitness Toy.emptyTree 1%N) EMPTY = getRoot Toy.emptyTree /\
  addSideloadedProgram {| treeRoot := getRoot Toy.emptyTree; state := Field_of 0 |}
    Toy.mulVk (getWitness Toy.emptyTree 1%N)
  = Ok {| treeRoot := calculateRoot (getWitness Toy.emptyTree 1%N) (hash Toy.mulVk);
          state := Field_of 0 |} /\
  calculateRoot (getWitness Toy.tree1 1%N) (hash Toy.mulVk)
  = calculateRoot (getWitness Toy.emptyTree 1%N) (hash Toy.mulVk).
Proof.
  split; [exact Toy_slot_empty |].
  pose proof (insert_fresh_witness Toy.emptyTree 1%N Toy.mulVk (Field_of 0)
                Toy_index_in_range Toy_slot_empty) as [Hrun [_ [Hfresh _]]].
  split; [exact Hrun | exact Hfresh].
Defined.

Lemma insert_occupied_witness :
  hash Toy.mulVk = getLeaf Toy.tree1 1%N /\
  addSideloadedProgram {| treeRoot := getRoot Toy.tree1; state := Field_of 0 |}
    Toy.mulVk (getWitness Toy.tree1 1%N)
  = Err SlotOccupied.
Proof.
  split; [reflexivity |].
  exact (insert_occupied Toy.tree1 1%N Toy.mulVk (Field_of 0)
           Toy_index_in_range Toy_slot_occupied Toy_collisionFree).
Defined.

Lemma addSideloadedProgram_frame_witness :
  let publicInput := {| treeRoot := getRoot Toy.emptyTree; state := Field_of 7 |} in
  let out := {| treeRoot := calculateRoot (getWitness Toy.emptyTree 1%N) (hash Toy.mulVk);
                state := Field_of 7 |} in
  addSideloadedProgram publicInput Toy.mulVk (getWitness Toy.emptyTree 1%N) = Ok out /\
  state out = state publicInput.
Proof.
  intros publicInput out.
  assert (addSideloadedProgram publicInput Toy.mulVk (getWitness Toy.emptyTree 1%N)
          = Ok out) as Hrun
    by (apply addSideloadedProgram_empty; symmetry; exact Toy_slot_empty).
  split; [exact Hrun |].
  exact (addSideloadedProgram_frame publicInput Toy.mulVk
           (getWitness Toy.emptyTree 1%N) out Hrun).
Defined.

(** Further runs: the registry with a second key at slot 2, predecessors
    that no prover produced, and the script. *)
Lemma Toy_validate_run :
  validateUsingTree Toy.state1 Toy.previous1 Toy.mulVk (getWitness Toy.tree1 1%N)
    Toy.childProof
  = Ok {| treeRoot := getRoot Toy.tree1; state := Field_of 10 |}.
Proof.
  apply (validate_run Toy.tree1 1%N Toy.mulVk (Field_of 0) Toy.previous1
           Toy.childProof); reflexivity.
Qed.

Lemma Toy_slot2_empty : getLeaf Toy.emptyTree 2%N = EMPTY.
Proof. reflexivity. Qed.

Lemma Toy_slot1_empty : getLeaf Toy.emptyTree 1%N = EMPTY.
Proof. reflexivity. Qed.

Lemma Toy_slot1_mulVk : getLeaf Toy.tree1 1%N = hash Toy.mulVk.
Proof. reflexivity. Qed.

Lemma Toy_root_changed : getRoot Toy.tree2 <> getRoot Toy.tree1.
Proof. intros H; apply (f_equal toBigInt) in H; vm_compute in H; discriminate. Qed.

Lemma validateUsingTree_inversion_witness :
  validateUsingTree Toy.state1 Toy.previous1 Toy.mulVk (getWitness Toy.tree1 1%N)
    Toy.childProof
  = Ok {| treeRoot := getRoot Toy.tree1; state := Field_of 10 |} /\
  verify Toy.childProof Toy.mulVk = true /\
  publicInput Toy.childProof = state Toy.state1.
Proof.
  split; [exact Toy_validate_run |].
  pose proof (validateUsingTree_inversion _ _ _ _ _ _ Toy_validate_run)
    as (_ & _ & Hver & Hin & _).
  split; [exact Hver | exact Hin].
Defined.


Lemma two_registrations_witness :
  (s ← addSideloadedProgram
         {| treeRoot := getRoot Toy.emptyTree; state := Field_of 0 |}
         Toy.otherVk (getWitness Toy.emptyTree 2%N);
   addSideloadedProgram s Toy.mulVk
     (getWitness (setLeaf Toy.emptyTree 2%N (hash Toy.otherVk)) 1%N))
  = Ok Toy.state2.
Proof.
  exact (proj2 (two_registrations Toy.emptyTree 1%N 2%N Toy.mulVk Toy.otherVk
                  (Field_of 0) ltac:(discriminate) eq_refl eq_refl
                  Toy_slot1_empty Toy_slot2_empty)).
Defined.

Lemma validate_recomputed_witness_witness :
  validateUsingTree Toy.state2 Toy.forged2 Toy.mulVk (getWitness Toy.tree2 1%N)
    Toy.childProof
  = Ok {| treeRoot := getRoot Toy.tree2; state := Field_of 10 |}.
Proof.
  exact (validate_recomputed_witness Toy.tree1 1%N 2%N Toy.mulVk
           (hash Toy.otherVk) (Field_of 0) Toy.forged2 Toy.childProof
           ltac:(discriminate) eq_refl Toy_slot1_mulVk eq_refl eq_refl eq_refl).
Defined.

Lemma validate_stale_witness_witness :
  getRoot Toy.tree2 <> getRoot Toy.tree1 /\
  validateUsingTree Toy.state2 Toy.forged2 Toy.mulVk (getWitness Toy.tree1 1%N)
    Toy.childProof
  = Err UntrustedKey.
Proof.
  split; [exact Toy_root_changed |].
  exact (validate_stale_witness Toy.tree1 1%N 2%N Toy.mulVk (hash Toy.otherVk)
           (Field_of 0) Toy.forged2 Toy.childProof
           eq_refl Toy_slot1_mulVk Toy_root_changed eq_refl).
Defined.

Lemma validate_compute_step_witness :
  sideloadedProgram_compute (Field_of 0) (Field_of 10) = Ok Toy.computed /\
  validateUsingTree Toy.stateC Toy.previousC Toy.childVk
    (getWitness Toy.emptyTree 1%N) (fromProof Toy.computed)
  = Ok {| treeRoot := treeRoot Toy.stateC;
          state := Field_add (Field_of 0) (Field_of 10) |}.
Proof.
  split; [reflexivity |].
  exact (proj1 (validate_compute_step (treeRoot Toy.stateC) (Field_of 0)
                  (Field_of 10) Toy.previousC Toy.childVk
                  (getWitness Toy.emptyTree 1%N) Toy.computed
                  eq_refl eq_refl eq_refl) eq_refl).
Defined.


Lemma add_after_multiply_witness :
  multiply_performMultiplication (Field_of 3) (Field_of 3)
  = Ok {| publicInput := tt; publicOutput := Field_mul (Field_of 3) (Field_of 3);
          maxProofsVerified := 0%nat; proof := 8 |} /\
  performAddition (Field_of 4)
    (fromProof {| publicInput := tt;
                  publicOutput := Field_mul (Field_of 3) (Field_of 3);
                  maxProofsVerified := 0%nat; proof := 8 |})
    Toy.mulVk
  = Ok (Field_add (Field_mul (Field_of 3) (Field_of 3)) (Field_of 4)).
Proof.
  split; [reflexivity |].
  exact (add_after_multiply (Field_of 3) (Field_of 3) (Field_of 4) Toy.mulVk _
           Toy_mulVk_trusted eq_refl (or_introl eq_refl)).
Defined.

Lemma addSideloadedProgram_zero_hash_witness :
  hash Toy.zeroVk = Field_of 0 /\
  addSideloadedProgram {| treeRoot := getRoot Toy.emptyTree; state := Field_of 7 |}
    Toy.zeroVk (getWitness Toy.emptyTree 1%N)
  = Ok {| treeRoot := getRoot Toy.emptyTree; state := Field_of 7 |}.
Proof.
  split; [reflexivity |].
  exact (proj1 (addSideloadedProgram_zero_hash
                  {| treeRoot := getRoot Toy.emptyTree; state := Field_of 7 |}
                  Toy.zeroVk (getWitness Toy.emptyTree 1%N)
                  eq_refl Toy_slot_empty)).
Defined.

End Runs.
